(** * Morph Fast Apply service: a shallow embedding and its contract

    The development follows [src/services/morph]: [constants.ts],
    [MorphService.ts] (the [MorphError] class, the constructor, [applyEdit],
    [validateApiKey], [formatMorphPrompt], [validateEditRequest]) and
    [index.ts] ([createMorphService], [isMorphAvailable]).

    JavaScript strings are sequences of UTF-16 code units, modelled as
    [list N].  The effects of the service (console output and the single
    call to the chat-completion endpoint) are recorded in a trace, and
    [throw]/[try]/[catch] are modelled by an outcome that is either a normal
    value or an abrupt completion carrying the thrown value. *)

From Stdlib Require Import NArith ZArith Ascii String.
From stdpp Require Import base option list strings gmap.

(** ** JavaScript strings *)

Module JS.

Local Open Scope N_scope.

Definition code_unit := N.
Definition jsstring := list code_unit.

(** An ASCII literal of the source, as code units. *)
Definition lit (s : string) : jsstring :=
  map N_of_ascii (String.list_ascii_of_string s).

Definition LF : code_unit := 10.

(** [WhiteSpace] and [LineTerminator] of ECMAScript, the code units that
    [String.prototype.trim] strips: TAB, LF, VT, FF, CR, SP, NBSP, the
    space separators of the Basic Multilingual Plane, LS, PS and ZWNBSP. *)
Definition isWhiteSpace (c : code_unit) : bool :=
  (c =? 9) || (c =? 10) || (c =? 11) || (c =? 12) || (c =? 13) ||
  (c =? 32) || (c =? 160) || (c =? 5760) ||
  ((8192 <=? c) && (c <=? 8202)) ||
  (c =? 8232) || (c =? 8233) || (c =? 8239) || (c =? 8287) ||
  (c =? 12288) || (c =? 65279).

Fixpoint trimStart (s : jsstring) : jsstring :=
  match s with
  | [] => []
  | c :: r => if isWhiteSpace c then trimStart r else s
  end.

Definition trimEnd (s : jsstring) : jsstring :=
  rev (trimStart (rev s)).

(** [String.prototype.trim] *)
Definition trim (s : jsstring) : jsstring := trimEnd (trimStart s).

(** Every code unit is white space (this includes the empty string). *)
Definition blank (s : jsstring) : bool := forallb isWhiteSpace s.

Fixpoint startsWith (s p : jsstring) : bool :=
  match p, s with
  | [], _ => true
  | _ :: _, [] => false
  | a :: p', b :: s' => (a =? b) && startsWith s' p'
  end.

(** [String.prototype.includes] with its default position 0. *)
Fixpoint includes (s p : jsstring) : bool :=
  startsWith s p ||
  match s with
  | [] => false
  | _ :: r => includes r p
  end.

(** A value that is a string, [undefined] or [null]: what a field declared
    [string] can hold once the guards [?.], [=== undefined] and [=== null]
    of the source are taken into account, and what [content] holds in a
    chat completion. *)
Inductive optstring :=
  | Undefined
  | Null
  | Str (s : jsstring).

(** [ToBoolean] on such a value: only a non-empty string is truthy. *)
Definition truthy (v : optstring) : bool :=
  match v with
  | Str (_ :: _) => true
  | _ => false
  end.

(** [ToString], as a template literal applies it to an interpolated value. *)
Definition toString (v : optstring) : jsstring :=
  match v with
  | Undefined => lit "undefined"
  | Null => lit "null"
  | Str s => s
  end.

(** [v?.trim()] *)
Definition optTrim (v : optstring) : optstring :=
  match v with
  | Str s => Str (trim s)
  | _ => Undefined
  end.

(** Values of the settings store: [undefined], [null], a boolean or a
    string. *)
Inductive value :=
  | VUndefined
  | VNull
  | VBool (b : bool)
  | VString (s : jsstring).

Definition toBoolean (v : value) : bool :=
  match v with
  | VBool b => b
  | VString (_ :: _) => true
  | _ => false
  end.

(** [a || b] *)
Definition or (a b : value) : value := if toBoolean a then a else b.

(** [a && b] *)
Definition and (a b : value) : value := if toBoolean a then b else a.

End JS.

Import JS.

(** ** Errors, outcomes and effects *)

(** Instances of [Error].  [MorphError message cause] is
    [new MorphError(message, cause)]; every other instance of [Error] (those
    of the HTTP client and of the runtime) is an [OtherError] with its
    [name] and [message]. *)
#[warnings="-register-all"]
Inductive Error :=
  | MorphError (message : jsstring) (cause : option Error)
  | OtherError (name message : jsstring).

Definition message (e : Error) : jsstring :=
  match e with
  | MorphError m _ => m
  | OtherError _ m => m
  end.

(** [this.name = "MorphError"] in the constructor of the class. *)
Definition name (e : Error) : jsstring :=
  match e with
  | MorphError _ _ => lit "MorphError"
  | OtherError n _ => n
  end.

Definition cause (e : Error) : option Error :=
  match e with
  | MorphError _ c => c
  | OtherError _ _ => None
  end.

(** What a [throw] statement can throw and a [catch] clause receives: an
    instance of [Error] or any other value. *)
Inductive thrown :=
  | ThrowError (e : Error)
  | ThrowValue (v : value).

(** [t instanceof Error ? t : undefined] *)
Definition asError (t : thrown) : option Error :=
  match t with
  | ThrowError e => Some e
  | ThrowValue _ => None
  end.

Definition instanceofMorphError (t : thrown) : bool :=
  match t with
  | ThrowError (MorphError _ _) => true
  | _ => false
  end.

(** The [TypeError] the engine raises for a member access on [undefined] or
    [null] (message as V8 words it). *)
Definition TypeError (v : optstring) (member : string) : thrown :=
  ThrowError (OtherError (lit "TypeError")
    (lit "Cannot read properties of " ++ toString v ++ lit " (reading '" ++
     lit member ++ lit "')")).

(** *** Requests to and responses of the chat-completion endpoint *)

Record ClientOptions := {
  opt_apiKey : value;
  opt_baseURL : value;
  opt_timeout : option Z
}.

Record ChatMessage := {
  role : jsstring;
  content : jsstring
}.

Record ChatCompletionParams := {
  model : jsstring;
  messages : list ChatMessage;
  max_tokens : option Z;
  stream : bool
}.

Record ChatCompletionMessage := {
  msg_content : optstring
}.

(** The source guards the access to [message] with [?.], so a choice may
    come without one. *)
Record Choice := {
  choice_message : option ChatCompletionMessage
}.

Record ChatCompletion := {
  choices : list Choice
}.

(** How the promise returned by [client.chat.completions.create] settles. *)
Inductive settled :=
  | Fulfilled (r : ChatCompletion)
  | Rejected (t : thrown).

(** *** The effect monad *)

Inductive event :=
  | ConsoleLog (args : list value)
  | ConsoleWarn (msg : jsstring)
  | RemoteCall (c : ClientOptions) (p : ChatCompletionParams).

Inductive completion (A : Type) :=
  | Normal (a : A)
  | Abrupt (t : thrown).
Arguments Normal {A} a.
Arguments Abrupt {A} t.

(** A computation: the events it emitted, in order, and how it completed. *)
Record Eff (A : Type) := mkEff {
  trace : list event;
  result : completion A
}.
Arguments mkEff {A} trace result.
Arguments trace {A} e.
Arguments result {A} e.

Definition ret {A} (a : A) : Eff A := mkEff [] (Normal a).

Definition throw {A} (t : thrown) : Eff A := mkEff [] (Abrupt t).

Definition emit (e : event) : Eff unit := mkEff [e] (Normal tt).

Definition bind {A B} (m : Eff A) (k : A → Eff B) : Eff B :=
  match result m with
  | Normal a => mkEff (trace m ++ trace (k a)) (result (k a))
  | Abrupt t => mkEff (trace m) (Abrupt t)
  end.

(** [try { m } catch (error) { handler error }] *)
Definition tryCatch {A} (m : Eff A) (handler : thrown → Eff A) : Eff A :=
  match result m with
  | Normal a => m
  | Abrupt t => mkEff (trace m ++ trace (handler t)) (result (handler t))
  end.

#[global] Instance Eff_ret : MRet Eff := @ret.
#[global] Instance Eff_bind : MBind Eff := λ A B k m, bind m k.
#[global] Instance Eff_throw : MThrow thrown Eff := @throw.

(** [if (c) { throw t }] *)
Definition throwIf (c : bool) (t : thrown) : Eff unit :=
  if c then throw t else ret tt.

(** The remote calls recorded in a trace: the invocations of
    [client.chat.completions.create].  What the HTTP client does inside one
    invocation (it may send the request again after a failure it holds to
    be transient) is not part of the trace. *)
Definition remoteCalls (tr : list event) : list ChatCompletionParams :=
  omap (fun e => match e with RemoteCall _ p => Some p | _ => None end) tr.

(** The warnings recorded in a trace. *)
Definition warnings (tr : list event) : list jsstring :=
  omap (fun e => match e with ConsoleWarn m => Some m | _ => None end) tr.

(** ** [constants.ts] *)

Record MorphSettings := {
  morphEnabled : bool;
  morphBaseUrl : jsstring
}.

Definition DEFAULT_MORPH_SETTINGS : MorphSettings :=
  {| morphEnabled := false; morphBaseUrl := lit "https://api.morphllm.com/v1" |}.

Definition DEFAULT_MORPH_TIMEOUT_MS : Z := 30000.

Definition MORPH_FAST_APPLY_MODEL : jsstring := lit "morph-v3-large".

(** ** [MorphService.ts] *)

Record MorphEditRequest := {
  instructions : optstring;
  originalContent : optstring;
  codeEdit : optstring
}.

Record MorphServiceConfig := {
  apiKey : value;
  baseUrl : value;
  timeout : option Z
}.

Record MorphService := {
  client : ClientOptions;
  config : MorphServiceConfig
}.

(** [a ?? b] on an optional number *)
Definition nullish (a : option Z) (b : Z) : Z := default b a.

(** The object [new MorphService(config)] builds: [this.config] and the
    options handed to [new OpenAI].  [new OpenAI] itself can throw (for a
    timeout that is negative or no integer, for a missing credential), in
    which case there is no object: see [construct]. *)
Definition constructor (config : MorphServiceConfig) : MorphService :=
  let this_config :=
    {| apiKey := apiKey config;
       baseUrl := baseUrl config;
       timeout := Some (nullish (timeout config) DEFAULT_MORPH_TIMEOUT_MS) |} in
  {| config := this_config;
     client := {| opt_apiKey := apiKey config;
                  opt_baseURL := baseUrl config;
                  opt_timeout := timeout this_config |} |}.

(** The three messages of [validateEditRequest], the one for an empty
    response, and the prefix of a wrapped failure. *)
Definition MSG_INSTRUCTIONS : jsstring :=
  lit "Instructions are required and cannot be empty".
Definition MSG_ORIGINAL : jsstring :=
  lit "Original content is required (can be empty string for new files)".
Definition MSG_CODE_EDIT : jsstring :=
  lit "Code edit is required and cannot be empty".
Definition MSG_EMPTY : jsstring :=
  lit "Morph API returned empty response".
Definition MSG_FAILED_PREFIX : jsstring :=
  lit "Morph API request failed: ".
Definition MSG_NO_MARKERS : jsstring :=
  lit "Morph edit request does not contain lazy edit markers (// ... existing code ...). This may result in unexpected behavior.".

Definition MARKER_SLASH : jsstring := lit "// ... existing code ...".
Definition MARKER_HASH : jsstring := lit "# ... existing code ...".
Definition MARKER_HTML : jsstring := lit "<!-- ... existing code ... -->".

(** [v.includes(a) || v.includes(b) || v.includes(c)]: a member access, so
    a [TypeError] when [v] is [undefined] or [null]. *)
Definition includesAny (v : optstring) (a b c : jsstring) : Eff bool :=
  match v with
  | Str s => mret (includes s a || includes s b || includes s c)
  | _ => mthrow (TypeError v "includes")
  end.

(** [v.length] *)
Definition lengthOf (v : optstring) : Eff nat :=
  match v with
  | Str s => mret (length s)
  | _ => mthrow (TypeError v "length")
  end.

Definition isNullish (v : optstring) : bool :=
  match v with
  | Undefined | Null => true
  | Str _ => false
  end.

Definition validateEditRequest (request : MorphEditRequest) : Eff unit :=
  throwIf (negb (truthy (optTrim (instructions request))))
          (ThrowError (MorphError MSG_INSTRUCTIONS None));;
  throwIf (isNullish (originalContent request))
          (ThrowError (MorphError MSG_ORIGINAL None));;
  throwIf (negb (truthy (optTrim (codeEdit request))))
          (ThrowError (MorphError MSG_CODE_EDIT None));;
  marked ← includesAny (codeEdit request) MARKER_SLASH MARKER_HASH MARKER_HTML;
  if marked : bool then mret tt
  else
    n ← lengthOf (originalContent request);
    if (0 <? n)%nat then emit (ConsoleWarn MSG_NO_MARKERS) else mret tt.

Definition formatMorphPrompt (request : MorphEditRequest) : jsstring :=
  lit "<instruction>" ++ toString (instructions request) ++
  lit "</instruction>" ++ [LF] ++
  lit "<code>" ++ toString (originalContent request) ++
  lit "</code>" ++ [LF] ++
  lit "<update>" ++ toString (codeEdit request) ++ lit "</update>".

Section Service.

(** The behaviour of the HTTP client: how the promise of
    [client.chat.completions.create(params)] settles. *)
Variable transport : ClientOptions → ChatCompletionParams → settled.

(** [await this.client.chat.completions.create(params)]: one invocation
    of the client, recorded as one [RemoteCall], settled as [transport]
    says. *)
Definition create (c : ClientOptions) (params : ChatCompletionParams)
  : Eff ChatCompletion :=
  mkEff [RemoteCall c params]
        match transport c params with
        | Fulfilled r => Normal r
        | Rejected t => Abrupt t
        end.

Definition editParams (request : MorphEditRequest) : ChatCompletionParams :=
  {| model := MORPH_FAST_APPLY_MODEL;
     messages := [ {| role := lit "user";
                      content := formatMorphPrompt request |} ];
     max_tokens := None;
     stream := false |}.

(** [response.choices[0]?.message?.content] *)
Definition firstContent (response : ChatCompletion) : optstring :=
  from_option msg_content Undefined
    (choices response !! 0%nat ≫= choice_message).

(** The [catch] clause of [applyEdit]. *)
Definition wrapError (error : thrown) : Eff optstring :=
  if instanceofMorphError error then mthrow error
  else
    let message := from_option message (lit "Unknown error") (asError error) in
    mthrow (ThrowError
      (MorphError (MSG_FAILED_PREFIX ++ message) (asError error))).

Definition applyEdit (this : MorphService) (request : MorphEditRequest)
  : Eff optstring :=
  tryCatch
    (validateEditRequest request;;
     let morphPrompt := formatMorphPrompt request in
     response ← create (client this)
       {| model := MORPH_FAST_APPLY_MODEL;
          messages := [ {| role := lit "user"; content := morphPrompt |} ];
          max_tokens := None;
          stream := false |};
     let mergedCode := firstContent response in
     throwIf (negb (truthy mergedCode))
             (ThrowError (MorphError MSG_EMPTY None));;
     mret mergedCode)
    wrapError.

Definition testParams : ChatCompletionParams :=
  {| model := MORPH_FAST_APPLY_MODEL;
     messages := [ {| role := lit "user";
                      content := lit "<instruction>test</instruction>" ++ [LF] ++
                                 lit "<code>test</code>" ++ [LF] ++
                                 lit "<update>test</update>" |} ];
     max_tokens := Some 1%Z;
     stream := false |}.

Definition validateApiKey (this : MorphService) : Eff bool :=
  tryCatch
    (create (client this) testParams;;
     mret true)
    (λ _, mret false).

End Service.

(** ** [index.ts] *)

(** The settings store as [createMorphService] reads it: the global state
    and the secrets, each looked up by key.  A key that is not set reads as
    [undefined]. *)
Record CacheService := {
  globalState : gmap string value;
  secrets : gmap string jsstring
}.

Definition getGlobalStateKey (c : CacheService) (key : string) : value :=
  default VUndefined (globalState c !! key).

Definition getSecretKey (c : CacheService) (key : string) : value :=
  from_option VString VUndefined (secrets c !! key).

Definition createMorphService (cacheService : CacheService)
  : Eff (option MorphService) :=
  let morphEnabled := getGlobalStateKey cacheService "morphEnabled" in
  let morphApiKey := getSecretKey cacheService "morphApiKey" in
  let morphBaseUrl := getGlobalStateKey cacheService "morphBaseUrl" in
  emit (ConsoleLog
    [ VString (lit "[MORPH DEBUG] createMorphService - morphEnabled:");
      morphEnabled;
      VString (lit "morphApiKey:");
      VString (if toBoolean morphApiKey then lit "***SET***" else lit "***EMPTY***");
      VString (lit "morphBaseUrl:");
      morphBaseUrl ]);;
  if negb (toBoolean morphEnabled) || negb (toBoolean morphApiKey) then
    emit (ConsoleLog
      [ VString (lit "[MORPH DEBUG] createMorphService returning null - morphEnabled:");
        morphEnabled;
        VString (lit "morphApiKey present:");
        VBool (negb (negb (toBoolean morphApiKey))) ]);;
    mret None
  else
    let config :=
      {| apiKey := morphApiKey;
         baseUrl := JS.or morphBaseUrl (VString (lit "https://api.morphllm.com/v1"));
         timeout := None |} in
    emit (ConsoleLog
      [ VString (lit "[MORPH DEBUG] createMorphService returning MorphService instance") ]);;
    mret (Some (constructor config)).

Definition isMorphAvailable (cacheService : CacheService) : bool :=
  let morphEnabled := getGlobalStateKey cacheService "morphEnabled" in
  let morphApiKey := getSecretKey cacheService "morphApiKey" in
  toBoolean (JS.and morphEnabled morphApiKey).

(** ** The error kinds of the contract

    The source has one error class; the three kinds of the contract are
    told apart by how the [MorphError] was built. *)

(** A failed precondition: one of the three errors of
    [validateEditRequest]. *)
Definition isValidationError (t : thrown) : Prop :=
  t = ThrowError (MorphError MSG_INSTRUCTIONS None) ∨
  t = ThrowError (MorphError MSG_ORIGINAL None) ∨
  t = ThrowError (MorphError MSG_CODE_EDIT None).

Definition EmptyResponseError : thrown :=
  ThrowError (MorphError MSG_EMPTY None).

(** The wrapper [applyEdit] builds around a failure [e] of the remote call. *)
Definition RequestFailedError (e : Error) : thrown :=
  ThrowError (MorphError (MSG_FAILED_PREFIX ++ message e) (Some e)).

(** A request that passes the three preconditions: [instructions] and
    [codeEdit] are strings with something left after trimming, and
    [originalContent] is a string. *)
Definition validRequest (request : MorphEditRequest) : Prop :=
  ∃ i o c,
    request = {| instructions := Str i; originalContent := Str o; codeEdit := Str c |}
    ∧ blank i = false ∧ blank c = false.

Definition hasMarker (c : jsstring) : bool :=
  includes c MARKER_SLASH || includes c MARKER_HASH || includes c MARKER_HTML.

(** The warning a request that passes the preconditions gives rise to. *)
Definition markerWarning (o c : jsstring) : list event :=
  if negb (hasMarker c) && (0 <? length o)%nat
  then [ConsoleWarn MSG_NO_MARKERS] else [].

(** How [applyEdit] completes once the remote call has settled. *)
Definition afterCall (s : settled) : completion optstring :=
  match s with
  | Fulfilled r =>
      if truthy (firstContent r) then Normal (firstContent r)
      else Abrupt EmptyResponseError
  | Rejected t => result (wrapError t)
  end.

(** *** Vocabulary of the contract, continued *)

(** The field is a string of which [trim] leaves nothing. *)
Definition blankField (v : optstring) : Prop :=
  ∃ s, v = Str s ∧ trim s = [].

(** Content that is absent ([undefined], [null]) or the empty string. *)
Definition emptyContent (v : optstring) : Prop :=
  v = Undefined ∨ v = Null ∨ v = Str [].


(** The condition both functions of [index.ts] test: the enabled flag is
    truthy and the credential is a non-empty string. *)
Definition configured (cache : CacheService) : Prop :=
  toBoolean (getGlobalStateKey cache "morphEnabled") = true
  ∧ ∃ k, secrets cache !! "morphApiKey" = Some k ∧ k ≠ [].

(** ** Fixtures *)

Definition sampleService : MorphService :=
  constructor {| apiKey := VString (lit "sk-test");
                 baseUrl := VString (lit "https://api.morphllm.com/v1");
                 timeout := None |}.

(** instructions ["add logging"], originalContent ["a"] and codeEdit
    ["// ... existing code ...\nb"] *)
Definition sampleRequest : MorphEditRequest :=
  {| instructions := Str (lit "add logging");
     originalContent := Str (lit "a");
     codeEdit := Str (lit "// ... existing code ..." ++ [LF] ++ lit "b") |}.

(** A transport whose call always settles the same way. *)
Definition settles (s : settled) : ClientOptions → ChatCompletionParams → settled :=
  λ _ _, s.

(** A completion with one choice, whose message has the given content. *)
Definition completionOf (v : optstring) : ChatCompletion :=
  {| choices := [ {| choice_message := Some {| msg_content := v |} |} ] |}.

Definition sampleCache : CacheService :=
  {| globalState := {[ "morphEnabled" := VBool true ]};
     secrets := {[ "morphApiKey" := lit "sk-test" ]} |}.

Definition blankInstructionsRequest : MorphEditRequest :=
  {| instructions := Str (lit "   ");
     originalContent := Str (lit "a");
     codeEdit := Str (lit "b") |}.

Definition absentOriginalRequest : MorphEditRequest :=
  {| instructions := Str (lit "add logging");
     originalContent := Undefined;
     codeEdit := Str (lit "b") |}.

Definition networkError : Error :=
  OtherError (lit "APIConnectionError") (lit "Connection error.").

Definition samplePrompt : jsstring :=
  lit "<instruction>add logging</instruction>" ++ [LF] ++
  lit "<code>a</code>" ++ [LF] ++
  lit "<update>// ... existing code ..." ++ [LF] ++ lit "b</update>".

(** ** Vocabulary for the further properties *)

(** The three markers [validateEditRequest] looks for. *)
Definition MARKERS : list jsstring := [MARKER_SLASH; MARKER_HASH; MARKER_HTML].

(** [<], with which every tag of the prompt starts. *)
Definition LT : code_unit := 60%N.

(** The string holds no [<]. *)
Definition tagFree (s : jsstring) : Prop := LT ∉ s.

(** The store with the secret [key] set to [k]. *)
Definition withSecret (key : string) (k : jsstring) (c : CacheService)
  : CacheService :=
  {| globalState := globalState c; secrets := <[key := k]> (secrets c) |}.

(** The two stores agree on the three keys [index.ts] reads. *)
Definition sameMorphKeys (c1 c2 : CacheService) : Prop :=
  globalState c1 !! "morphEnabled" = globalState c2 !! "morphEnabled"
  ∧ globalState c1 !! "morphBaseUrl" = globalState c2 !! "morphBaseUrl"
  ∧ secrets c1 !! "morphApiKey" = secrets c2 !! "morphApiKey".

(** Two requests whose fields differ and whose prompts coincide. *)
Definition ambiguousRequest1 : MorphEditRequest :=
  {| instructions := Str (lit "x");
     originalContent := Str (lit "y</code>" ++ [LF] ++ lit "<update>z");
     codeEdit := Str (lit "w") |}.

Definition ambiguousRequest2 : MorphEditRequest :=
  {| instructions := Str (lit "x");
     originalContent := Str (lit "y");
     codeEdit := Str (lit "z</code>" ++ [LF] ++ lit "<update>w") |}.

(** Every field is missing or blank. *)
Definition allInvalidRequest : MorphEditRequest :=
  {| instructions := Null; originalContent := Undefined; codeEdit := Str [] |}.

(** A store with settings of other features besides those of Morph. *)
Definition busyCache : CacheService :=
  {| globalState := {[ "morphEnabled" := VBool true;
                       "mode" := VString (lit "act") ]};
     secrets := {[ "morphApiKey" := lit "sk-test";
                   "openRouterApiKey" := lit "sk-or" ]} |}.

(** A store with an endpoint of its own. *)
Definition customCache : CacheService :=
  {| globalState := {[ "morphEnabled" := VBool true;
                       "morphBaseUrl" := VString (lit "https://morph.example/v1") ]};
     secrets := {[ "morphApiKey" := lit "sk-test" ]} |}.

(** The first line [createMorphService] writes to the console. *)
Definition firstLog (cache : CacheService) : event :=
  ConsoleLog
    [ VString (lit "[MORPH DEBUG] createMorphService - morphEnabled:");
      getGlobalStateKey cache "morphEnabled";
      VString (lit "morphApiKey:");
      VString (if toBoolean (getSecretKey cache "morphApiKey")
               then lit "***SET***" else lit "***EMPTY***");
      VString (lit "morphBaseUrl:");
      getGlobalStateKey cache "morphBaseUrl" ].

(** ** The constructor with its error path *)

Section Construct.

(** What [new OpenAI(options)] throws, when it throws. *)
Variable newOpenAI : ClientOptions → option Error.

(** [new MorphService(config)]: the assignment to [this.config], then
    [new OpenAI], whose error, if any, leaves the constructor. *)
Definition construct (cfg : MorphServiceConfig) : completion MorphService :=
  let s := constructor cfg in
  match newOpenAI (client s) with
  | Some e => Abrupt (ThrowError e)
  | None => Normal s
  end.

End Construct.

(** A client constructor that refuses a credential that is [undefined]
    and a negative timeout. *)
Definition strictNewOpenAI (o : ClientOptions) : option Error :=
  match opt_apiKey o, opt_timeout o with
  | VUndefined, _ => Some (OtherError (lit "Error") (lit "missing credential"))
  | _, Some n =>
      if (n <? 0)%Z
      then Some (OtherError (lit "Error") (lit "timeout must be a positive integer"))
      else None
  | _, None => None
  end.

Definition zeroTimeoutConfig : MorphServiceConfig :=
  {| apiKey := VString (lit "sk-test");
     baseUrl := VString (lit "https://api.morphllm.com/v1");
     timeout := Some 0%Z |}.

(** A response with no choice. *)
Definition malformedCompletion : ChatCompletion := {| choices := [] |}.

(** * Proofs *)

(** Unfolds the combinators of the monad and reduces what is exposed. *)
Ltac eff_reduce :=
  cbv [mbind mret mthrow Eff_bind Eff_ret Eff_throw bind ret throw emit
       throwIf tryCatch result trace].

(** ** Facts about [trim] *)

Section Trim.

Lemma trimStart_blank s : blank s = true → trimStart s = [].
Proof.
  induction s as [|c r IH]; simpl; [done|].
  intros [Hc Hr]%andb_prop. rewrite Hc. by apply IH.
Qed.

Lemma trimStart_nil_blank s : trimStart s = [] → blank s = true.
Proof.
  induction s as [|c r IH]; simpl; [done|].
  destruct (isWhiteSpace c); [auto | discriminate].
Qed.

Lemma trimStart_blank_iff s : trimStart s = [] ↔ blank s = true.
Proof. split; [apply trimStart_nil_blank | apply trimStart_blank]. Qed.

(** What [trimStart] leaves is a suffix of the string. *)
Lemma trimStart_suffix s : ∃ p, blank p = true ∧ s = p ++ trimStart s.
Proof.
  induction s as [|c r [p [Hp Hs]]]; [by exists []|].
  simpl. destruct (isWhiteSpace c) eqn:Hc.
  - exists (c :: p). simpl. rewrite Hc, Hp. split; [done|]. by f_equal.
  - by exists [].
Qed.

Lemma blank_app s t : blank (s ++ t) = blank s && blank t.
Proof. apply forallb_app. Qed.

Lemma blank_rev s : blank (rev s) = blank s.
Proof.
  induction s as [|c r IH]; [done|].
  simpl. rewrite blank_app, IH. simpl. rewrite andb_true_r. apply andb_comm.
Qed.

Lemma trimEnd_blank_iff s : trimEnd s = [] ↔ blank s = true.
Proof.
  unfold trimEnd. rewrite <- blank_rev, <- trimStart_blank_iff.
  split; intros H.
  - apply (f_equal (@rev code_unit)) in H. by rewrite rev_involutive in H.
  - by rewrite H.
Qed.

(** The result of [trim] is empty exactly for the strings made of white
    space only. *)
Lemma trim_nil_iff s : trim s = [] ↔ blank s = true.
Proof.
  unfold trim. rewrite trimEnd_blank_iff.
  destruct (trimStart_suffix s) as [p [Hp Hs]].
  rewrite Hs at 2. rewrite blank_app, Hp. done.
Qed.

Lemma truthy_optTrim_Str s : truthy (optTrim (Str s)) = negb (blank s).
Proof.
  simpl. destruct (trim s) as [|c r] eqn:Ht.
  - apply trim_nil_iff in Ht. by rewrite Ht.
  - destruct (blank s) eqn:Hb; [|done].
    apply trim_nil_iff in Hb. congruence.
Qed.

End Trim.

(** ** [includes] finds exactly the substrings *)

Lemma startsWith_spec s p : startsWith s p = true ↔ ∃ b, s = p ++ b.
Proof.
  revert s. induction p as [|a p IH]; intros s.
  - destruct s; simpl; split; eauto.
  - destruct s as [|b s]; simpl.
    + split; [done | by intros [? ?]].
    + rewrite andb_true_iff, N.eqb_eq, IH. split.
      * intros [-> [t ->]]. by exists t.
      * intros [t [= -> ->]]. eauto.
Qed.

Lemma includes_spec s p : includes s p = true ↔ ∃ a b, s = a ++ p ++ b.
Proof.
  induction s as [|c s IH].
  - cbn [includes]. rewrite orb_false_r, startsWith_spec. split.
    + intros [b Hb]. by exists [], b.
    + intros [a [b Hab]]. symmetry in Hab.
      apply app_eq_nil in Hab as [-> Hpb]. eauto.
  - cbn [includes]. rewrite orb_true_iff, startsWith_spec, IH. split.
    + intros [[b Hb] | [a [b ->]]].
      * by exists [], b.
      * by exists (c :: a), b.
    + intros [[|c' a] [b Hab]].
      * left. by exists b.
      * right. injection Hab as -> ->. eauto.
Qed.

(** ** The monad's equations *)

Section EffLemmas.
Context {A B : Type}.

Lemma bind_ret (a : A) (k : A → Eff B) : (mret a ≫= k) = k a.
Proof. unfold mbind, Eff_bind, bind. simpl. by destruct (k a). Qed.

Lemma bind_throw (t : thrown) (k : A → Eff B) :
  (mthrow t ≫= k) = mthrow t.
Proof. reflexivity. Qed.

Lemma bind_normal (tr : list event) (a : A) (k : A → Eff B) :
  (mkEff tr (Normal a) ≫= k) = mkEff (tr ++ trace (k a)) (result (k a)).
Proof. reflexivity. Qed.

Lemma bind_abrupt (tr : list event) (t : thrown) (k : A → Eff B) :
  (mkEff tr (Abrupt t) ≫= k) = mkEff tr (Abrupt t).
Proof. reflexivity. Qed.

Lemma tryCatch_normal (tr : list event) (a : A) (h : thrown → Eff A) :
  tryCatch (mkEff tr (Normal a)) h = mkEff tr (Normal a).
Proof. reflexivity. Qed.

Lemma tryCatch_abrupt (tr : list event) (t : thrown) (h : thrown → Eff A) :
  tryCatch (mkEff tr (Abrupt t)) h
  = mkEff (tr ++ trace (h t)) (result (h t)).
Proof. reflexivity. Qed.

End EffLemmas.

Lemma throwIf_true t : throwIf true t = mthrow t.
Proof. reflexivity. Qed.

Lemma throwIf_false t : throwIf false t = mret tt.
Proof. reflexivity. Qed.

(** ** [validateEditRequest] *)

Lemma validate_accepts i o c :
  blank i = false → blank c = false →
  validateEditRequest
    {| instructions := Str i; originalContent := Str o; codeEdit := Str c |}
  = mkEff (markerWarning o c) (Normal tt).
Proof.
  intros Hi Hc. unfold validateEditRequest, markerWarning, hasMarker.
  cbn [instructions originalContent codeEdit isNullish includesAny lengthOf].
  rewrite !truthy_optTrim_Str, Hi, Hc. cbn [negb].
  eff_reduce.
  by destruct (includes c MARKER_SLASH || includes c MARKER_HASH
               || includes c MARKER_HTML), (0 <? length o)%nat.
Qed.

Lemma validate_instructions request :
  truthy (optTrim (instructions request)) = false →
  validateEditRequest request
  = mkEff [] (Abrupt (ThrowError (MorphError MSG_INSTRUCTIONS None))).
Proof.
  intros H. unfold validateEditRequest. rewrite H. reflexivity.
Qed.

Lemma validate_originalContent request :
  truthy (optTrim (instructions request)) = true →
  isNullish (originalContent request) = true →
  validateEditRequest request
  = mkEff [] (Abrupt (ThrowError (MorphError MSG_ORIGINAL None))).
Proof.
  intros H1 H2. unfold validateEditRequest. rewrite H1, H2. reflexivity.
Qed.

Lemma validate_codeEdit request :
  truthy (optTrim (instructions request)) = true →
  isNullish (originalContent request) = false →
  truthy (optTrim (codeEdit request)) = false →
  validateEditRequest request
  = mkEff [] (Abrupt (ThrowError (MorphError MSG_CODE_EDIT None))).
Proof.
  intros H1 H2 H3. unfold validateEditRequest. rewrite H1, H2, H3. reflexivity.
Qed.

(** Either the request passes the preconditions, or validation throws one
    of its three errors and emits nothing. *)
Lemma validate_cases request :
  (validRequest request) ∨
  (∃ t, isValidationError t ∧ validateEditRequest request = mkEff [] (Abrupt t)).
Proof.
  destruct (truthy (optTrim (instructions request))) eqn:H1.
  2:{ right. eexists. split; [|by apply validate_instructions]. by left. }
  destruct (isNullish (originalContent request)) eqn:H2.
  { right. eexists. split; [|by apply validate_originalContent].
    right; by left. }
  destruct (truthy (optTrim (codeEdit request))) eqn:H3.
  2:{ right. eexists. split; [|by apply validate_codeEdit]. right; by right. }
  left. destruct request as [[| |i] [| |o] [| |c]]; try discriminate.
  exists i, o, c. cbn [instructions codeEdit] in H1, H3.
  rewrite truthy_optTrim_Str in H1, H3.
  split; [done|]. split; by apply negb_true_iff.
Qed.

Lemma validate_rejects request :
  ¬ validRequest request →
  ∃ t, isValidationError t ∧ validateEditRequest request = mkEff [] (Abrupt t).
Proof. intros H. by destruct (validate_cases request). Qed.

(** ** [applyEdit] *)

Section ServiceLemmas.

Variable transport : ClientOptions → ChatCompletionParams → settled.
Variable this : MorphService.

Lemma wrapError_trace t : trace (wrapError t) = [].
Proof. unfold wrapError. by destruct (instanceofMorphError t). Qed.

Lemma wrapError_abrupt t : ∃ t', result (wrapError t) = Abrupt t'.
Proof. unfold wrapError. destruct (instanceofMorphError t); by eexists. Qed.

(** A [MorphError] passes through the [catch] clause unchanged. *)
Lemma wrapError_MorphError m c :
  wrapError (ThrowError (MorphError m c))
  = mkEff [] (Abrupt (ThrowError (MorphError m c))).
Proof. reflexivity. Qed.

(** Any other instance of [Error] is wrapped, and becomes the cause. *)
Lemma wrapError_OtherError e :
  instanceofMorphError (ThrowError e) = false →
  wrapError (ThrowError e) = mkEff [] (Abrupt (RequestFailedError e)).
Proof. intros H. unfold wrapError. by rewrite H. Qed.

(** A thrown value that is no [Error] is wrapped without a cause. *)
Lemma wrapError_value v :
  wrapError (ThrowValue v)
  = mkEff [] (Abrupt (ThrowError
      (MorphError (MSG_FAILED_PREFIX ++ lit "Unknown error") None))).
Proof. reflexivity. Qed.

Lemma applyEdit_valid i o c :
  blank i = false → blank c = false →
  let request :=
    {| instructions := Str i; originalContent := Str o; codeEdit := Str c |} in
  applyEdit transport this request
  = mkEff (markerWarning o c ++ [RemoteCall (client this) (editParams request)])
          (afterCall (transport (client this) (editParams request))).
Proof.
  intros Hi Hc request. unfold applyEdit.
  pose proof (validate_accepts i o c Hi Hc) as Hv.
  change (validateEditRequest request = mkEff (markerWarning o c) (Normal tt)) in Hv.
  rewrite Hv.
  fold (editParams request). unfold create, afterCall.
  destruct (transport (client this) (editParams request)) as [r|t].
  - unfold EmptyResponseError.
    eff_reduce.
    destruct (truthy (firstContent r)); cbn [negb]; eff_reduce;
      by rewrite ?app_nil_r.
  - transitivity
      (tryCatch
         (mkEff (markerWarning o c ++
                 [RemoteCall (client this) (editParams request)])
                (Abrupt t))
         wrapError); [reflexivity|].
    unfold tryCatch. cbn [result trace].
    by rewrite wrapError_trace, app_nil_r.
Qed.

Lemma applyEdit_invalid request :
  ¬ validRequest request →
  ∃ t, isValidationError t ∧
       applyEdit transport this request = mkEff [] (Abrupt t).
Proof.
  intros H. destruct (validate_rejects request H) as [t [Ht Hv]].
  exists t. split; [done|]. unfold applyEdit. rewrite Hv.
  destruct Ht as [-> | [-> | ->]]; reflexivity.
Qed.

Lemma blank_not_valid request :
  blankField (instructions request) ∨ blankField (codeEdit request) →
  ¬ validRequest request.
Proof.
  intros H [i [o [c [-> [Hi Hc]]]]]. unfold blankField in H. cbn in H.
  destruct H as [[s [[= <-] Hs]] | [s [[= <-] Hs]]];
    apply trim_nil_iff in Hs; congruence.
Qed.

Lemma nullish_not_valid request :
  isNullish (originalContent request) = true → ¬ validRequest request.
Proof. by intros H [i [o [c [-> _]]]]. Qed.

End ServiceLemmas.

Lemma truthy_false_iff v : truthy v = false ↔ emptyContent v.
Proof.
  unfold emptyContent. destruct v as [| |[|c s]]; simpl; split; try done.
  - by left.
  - right; by left.
  - right; by right.
  - intros [H | [H | H]]; discriminate.
Qed.

Lemma sampleRequest_valid : validRequest sampleRequest.
Proof. eexists _, _, _. split; [reflexivity|]. split; reflexivity. Qed.

(** ** The contract of [applyEdit] *)

Section Contract.

Variable transport : ClientOptions → ChatCompletionParams → settled.
Variable this : MorphService.

(** C1. A request whose [instructions] is empty or made of white space
    only, and likewise a request whose [codeEdit] is, makes [applyEdit]
    fail with a validation error, and no remote call is issued. *)
Theorem applyEdit_blank_field_rejected request :
  blankField (instructions request) ∨ blankField (codeEdit request) →
  ∃ t, isValidationError t
       ∧ result (applyEdit transport this request) = Abrupt t
       ∧ remoteCalls (trace (applyEdit transport this request)) = [].
Proof.
  intros H.
  destruct (applyEdit_invalid transport this request) as [t [Ht Heq]].
  { by apply blank_not_valid. }
  exists t. by rewrite Heq.
Qed.


(** C3. For a valid request, an [Error] the transport rejects with (no
    [MorphError], which the transport cannot raise) makes [applyEdit] fail
    with the wrapper whose cause is that very error; the errors raised
    inside [applyEdit], those of validation and the empty-response error,
    reach the caller as they were thrown, without a wrapper or a cause. *)
Theorem applyEdit_wraps_foreign_errors_only request :
  (∀ e, validRequest request →
        transport (client this) (editParams request) = Rejected (ThrowError e) →
        instanceofMorphError (ThrowError e) = false →
        result (applyEdit transport this request)
        = Abrupt (ThrowError
            (MorphError (MSG_FAILED_PREFIX ++ message e) (Some e))))
  ∧ (¬ validRequest request →
     ∃ t, isValidationError t
          ∧ result (applyEdit transport this request) = Abrupt t
          ∧ result (validateEditRequest request) = Abrupt t)
  ∧ (∀ r, validRequest request →
          transport (client this) (editParams request) = Fulfilled r →
          emptyContent (firstContent r) →
          result (applyEdit transport this request)
          = Abrupt (ThrowError (MorphError MSG_EMPTY None))).
Proof.
  split; [|split].
  - intros e [i [o [c [-> [Hi Hc]]]]] Hr Hm.
    rewrite (applyEdit_valid transport this i o c Hi Hc). cbn [result].
    rewrite Hr. cbn [afterCall]. by rewrite (wrapError_OtherError e Hm).
  - intros Hn. destruct (validate_rejects request Hn) as [t [Ht Hv]].
    exists t. split; [done|]. rewrite Hv. split; [|done].
    unfold applyEdit. rewrite Hv.
    by destruct Ht as [-> | [-> | ->]].
  - intros r [i [o [c [-> [Hi Hc]]]]] Hr He.
    rewrite (applyEdit_valid transport this i o c Hi Hc). cbn [result].
    rewrite Hr. cbn [afterCall]. apply truthy_false_iff in He.
    by rewrite He.
Qed.

(** C4. The three fields are inserted verbatim between the tags, in the
    order instruction, code, update, with a line feed between the
    segments; and for a request that passes validation this prompt is the
    content of the only message, of role [user], of the only call. *)
Theorem applyEdit_sends_template_prompt i o c :
  let request :=
    {| instructions := Str i; originalContent := Str o; codeEdit := Str c |} in
  let prompt :=
    lit "<instruction>" ++ i ++ lit "</instruction>" ++ [LF] ++
    lit "<code>" ++ o ++ lit "</code>" ++ [LF] ++
    lit "<update>" ++ c ++ lit "</update>" in
  formatMorphPrompt request = prompt
  ∧ (validRequest request →
     remoteCalls (trace (applyEdit transport this request))
     = [ {| model := MORPH_FAST_APPLY_MODEL;
            messages := [ {| role := lit "user"; content := prompt |} ];
            max_tokens := None;
            stream := false |} ]).
Proof.
  intros request prompt. split; [reflexivity|].
  intros [i' [o' [c' [[= <- <- <-] [Hi Hc]]]]].
  subst request. rewrite (applyEdit_valid transport this i o c Hi Hc).
  cbn [trace]. unfold remoteCalls, markerWarning.
  by destruct (negb (hasMarker c) && (0 <? length o)%nat).
Qed.

(** C5, as amended. [validateApiKey] invokes the client once, with the
    test request; it returns [true] exactly when that invocation is
    fulfilled, whatever the response holds (the response is not looked
    at), and [false] exactly when it is rejected, whatever it is rejected
    with; it never throws. *)
Theorem validateApiKey_total :
  let outcome := transport (client this) testParams in
  remoteCalls (trace (validateApiKey transport this)) = [testParams]
  ∧ (result (validateApiKey transport this) = Normal true
     ↔ ∃ r, outcome = Fulfilled r)
  ∧ (result (validateApiKey transport this) = Normal false
     ↔ ∃ t, outcome = Rejected t)
  ∧ (∀ t, result (validateApiKey transport this) ≠ Abrupt t).
Proof.
  intros outcome. unfold validateApiKey, create. fold outcome.
  destruct outcome as [r|t]; eff_reduce; cbn [app remoteCalls omap list_omap].
  - split; [done|]. split; [|split]; [split; eauto | split | done].
    + discriminate.
    + intros [? ?]. discriminate.
  - split; [done|]. split; [|split]; [split | split; eauto | done].
    + discriminate.
    + intros [? ?]. discriminate.
Qed.

(** C6. With [originalContent] the empty string and the two other fields
    valid, validation accepts the request and the call is issued; with
    [originalContent] [undefined] or [null], [applyEdit] fails with a
    validation error. *)
Theorem applyEdit_originalContent_presence i c request :
  blank i = false → blank c = false →
  isNullish (originalContent request) = true →
  let fresh :=
    {| instructions := Str i; originalContent := Str []; codeEdit := Str c |} in
  validateEditRequest fresh = mkEff [] (Normal tt)
  ∧ remoteCalls (trace (applyEdit transport this fresh)) = [editParams fresh]
  ∧ (∃ t, isValidationError t
          ∧ applyEdit transport this request = mkEff [] (Abrupt t)).
Proof.
  intros Hi Hc Hn fresh. split; [|split].
  - unfold fresh. rewrite (validate_accepts i [] c Hi Hc).
    unfold markerWarning. cbn [length Nat.ltb Nat.leb]. by rewrite andb_false_r.
  - unfold fresh. rewrite (applyEdit_valid transport this i [] c Hi Hc).
    cbn [trace]. unfold markerWarning. cbn [length Nat.ltb Nat.leb].
    by rewrite andb_false_r.
  - apply applyEdit_invalid. by apply nullish_not_valid.
Qed.

(** C7. For a request that passes the preconditions: if [codeEdit]
    contains none of the three markers and [originalContent] is not
    empty, one warning is emitted and the call is issued all the same; if
    a marker is present or [originalContent] is empty, no warning is
    emitted; the marker check never makes validation fail. *)
Theorem applyEdit_marker_check_warns_only i o c :
  blank i = false → blank c = false →
  let request :=
    {| instructions := Str i; originalContent := Str o; codeEdit := Str c |} in
  (hasMarker c = false → o ≠ [] →
   warnings (trace (applyEdit transport this request)) = [MSG_NO_MARKERS])
  ∧ (hasMarker c = true ∨ o = [] →
     warnings (trace (applyEdit transport this request)) = [])
  ∧ remoteCalls (trace (applyEdit transport this request)) = [editParams request]
  ∧ result (validateEditRequest request) = Normal tt.
Proof.
  intros Hi Hc request. unfold request.
  rewrite (applyEdit_valid transport this i o c Hi Hc),
          (validate_accepts i o c Hi Hc).
  cbn [trace result]. unfold markerWarning.
  split; [|split; [|split]].
  - intros -> Ho. by destruct o.
  - intros [-> | ->]; [done|]. cbn [length Nat.ltb Nat.leb].
    by rewrite andb_false_r.
  - by destruct (negb (hasMarker c) && (0 <? length o)%nat).
  - done.
Qed.

(** C10. For a valid request, a response with no choice at all, or whose
    first choice has no message, is read without a fault: the guarded
    access yields [undefined] and [applyEdit] fails with the
    empty-response error (which carries no cause: it is no wrapped
    [TypeError]). *)
Theorem applyEdit_guards_missing_choice request r :
  validRequest request →
  transport (client this) (editParams request) = Fulfilled r →
  choices r = [] ∨ (∃ rest, choices r = {| choice_message := None |} :: rest) →
  firstContent r = Undefined
  ∧ result (applyEdit transport this request)
    = Abrupt (ThrowError (MorphError MSG_EMPTY None)).
Proof.
  intros [i [o [c [-> [Hi Hc]]]]] Hr Hch.
  assert (firstContent r = Undefined) as Hf.
  { unfold firstContent. by destruct Hch as [-> | [rest ->]]. }
  split; [done|].
  rewrite (applyEdit_valid transport this i o c Hi Hc). cbn [result].
  rewrite Hr. cbn [afterCall]. by rewrite Hf.
Qed.

End Contract.

(** ** Construction and availability *)

Lemma toBoolean_secret cache :
  toBoolean (getSecretKey cache "morphApiKey") = true
  ↔ ∃ k, secrets cache !! "morphApiKey" = Some k ∧ k ≠ [].
Proof.
  unfold getSecretKey.
  destruct (secrets cache !! "morphApiKey") as [[|c k]|]; simpl; split.
  - discriminate.
  - by intros [k [[= <-] Hk]].
  - intros _. by eexists.
  - done.
  - discriminate.
  - by intros [k [? _]].
Qed.

(** What [createMorphService] returns, apart from what it logs. *)
Lemma createMorphService_result cache :
  result (createMorphService cache)
  = Normal
      (if toBoolean (getGlobalStateKey cache "morphEnabled")
          && toBoolean (getSecretKey cache "morphApiKey")
       then Some (constructor
              {| apiKey := getSecretKey cache "morphApiKey";
                 baseUrl := JS.or (getGlobalStateKey cache "morphBaseUrl")
                                  (VString (lit "https://api.morphllm.com/v1"));
                 timeout := None |})
       else None).
Proof.
  unfold createMorphService.
  by destruct (toBoolean (getGlobalStateKey cache "morphEnabled")),
              (toBoolean (getSecretKey cache "morphApiKey")).
Qed.

Lemma isMorphAvailable_eq cache :
  isMorphAvailable cache
  = toBoolean (getGlobalStateKey cache "morphEnabled")
    && toBoolean (getSecretKey cache "morphApiKey").
Proof.
  unfold isMorphAvailable, JS.and.
  by destruct (toBoolean (getGlobalStateKey cache "morphEnabled")) eqn:H;
    rewrite ?H.
Qed.

(** C8. A configuration without [timeout] gives the service the timeout
    of 30000 milliseconds, in its configuration and in the options of its
    client; and a store without [morphBaseUrl] gives the service it creates
    the base endpoint [https://api.morphllm.com/v1]. *)
Theorem defaults_of_timeout_and_endpoint cfg cache svc :
  timeout cfg = None →
  globalState cache !! "morphBaseUrl" = None →
  result (createMorphService cache) = Normal (Some svc) →
  (timeout (config (constructor cfg)) = Some 30000%Z
   ∧ opt_timeout (client (constructor cfg)) = Some 30000%Z)
  ∧ (baseUrl (config svc) = VString (lit "https://api.morphllm.com/v1")
     ∧ opt_baseURL (client svc) = VString (lit "https://api.morphllm.com/v1")
     ∧ opt_timeout (client svc) = Some 30000%Z).
Proof.
  intros Ht Hb Hs. split.
  - unfold constructor. cbn [timeout config client opt_timeout].
    by rewrite Ht.
  - rewrite createMorphService_result in Hs.
    destruct (toBoolean (getGlobalStateKey cache "morphEnabled")
              && toBoolean (getSecretKey cache "morphApiKey")); [|discriminate].
    injection Hs as <-.
    unfold getGlobalStateKey at 1 2. rewrite Hb. done.
Qed.

(** C9. [isMorphAvailable] answers [true] exactly when
    [createMorphService] returns a service and not [null]; each of them
    does so exactly when the enabled flag is truthy and the credential is
    a non-empty string. *)
Theorem isMorphAvailable_iff_service_created cache :
  (isMorphAvailable cache = true
   ↔ ∃ svc, result (createMorphService cache) = Normal (Some svc))
  ∧ (isMorphAvailable cache = true ↔ configured cache)
  ∧ ((∃ svc, result (createMorphService cache) = Normal (Some svc))
     ↔ configured cache)
  ∧ (isMorphAvailable cache = false
     ↔ result (createMorphService cache) = Normal None).
Proof.
  rewrite createMorphService_result, isMorphAvailable_eq.
  unfold configured. rewrite <- toBoolean_secret.
  destruct (toBoolean (getGlobalStateKey cache "morphEnabled")),
           (toBoolean (getSecretKey cache "morphApiKey")); cbn [andb].
  all: repeat split; try done; try (by intros [? ?]); eauto.
  all: match goal with H : ∃ _, _ |- _ => by destruct H as [? [=]] end.
Qed.

(** ** The contract at concrete inputs *)

(** Instructions of three spaces: rejected, and the transport is not called. *)
Lemma applyEdit_blank_field_rejected_witness :
  (blankField (instructions blankInstructionsRequest)
   ∨ blankField (codeEdit blankInstructionsRequest))
  ∧ ∃ t, isValidationError t
         ∧ result (applyEdit (settles (Fulfilled (completionOf (Str (lit "X")))))
                             sampleService blankInstructionsRequest) = Abrupt t
         ∧ remoteCalls
             (trace (applyEdit (settles (Fulfilled (completionOf (Str (lit "X")))))
                               sampleService blankInstructionsRequest)) = [].
Proof.
  assert (blankField (instructions blankInstructionsRequest)
          ∨ blankField (codeEdit blankInstructionsRequest)) as H.
  { left. exists (lit "   "). split; reflexivity. }
  split; [exact H|].
  exact (applyEdit_blank_field_rejected _ sampleService _ H).
Defined.


(** A connection error is wrapped and kept as the cause; the error for
    blank instructions and the one for empty content arrive unwrapped. *)
Lemma applyEdit_wraps_foreign_errors_only_witness :
  (validRequest sampleRequest
   ∧ instanceofMorphError (ThrowError networkError) = false
   ∧ result (applyEdit (settles (Rejected (ThrowError networkError)))
                       sampleService sampleRequest)
     = Abrupt (ThrowError
         (MorphError (lit "Morph API request failed: Connection error.")
                     (Some networkError))))
  ∧ (¬ validRequest blankInstructionsRequest
     ∧ result (applyEdit (settles (Rejected (ThrowError networkError)))
                         sampleService blankInstructionsRequest)
       = Abrupt (ThrowError (MorphError MSG_INSTRUCTIONS None)))
  ∧ (emptyContent (firstContent (completionOf (Str [])))
     ∧ result (applyEdit (settles (Fulfilled (completionOf (Str []))))
                         sampleService sampleRequest)
       = Abrupt (ThrowError (MorphError MSG_EMPTY None))).
Proof.
  assert (¬ validRequest blankInstructionsRequest) as Hn.
  { intros [i [o [c [[= <- <- <-] [Hi _]]]]]. discriminate Hi. }
  split; [|split].
  - split; [exact sampleRequest_valid|]. split; [reflexivity|].
    destruct (applyEdit_wraps_foreign_errors_only
                (settles (Rejected (ThrowError networkError)))
                sampleService sampleRequest) as [H _].
    exact (H networkError sampleRequest_valid eq_refl eq_refl).
  - split; [exact Hn|].
    destruct (applyEdit_wraps_foreign_errors_only
                (settles (Rejected (ThrowError networkError)))
                sampleService blankInstructionsRequest) as [_ [H _]].
    destruct (H Hn) as [t [_ [Ha Hv]]].
    change (@Abrupt unit (ThrowError (MorphError MSG_INSTRUCTIONS None)) = Abrupt t) in Hv.
    injection Hv as <-. exact Ha.
  - assert (emptyContent (firstContent (completionOf (Str [])))) as He.
    { right; right; reflexivity. }
    split; [exact He|].
    destruct (applyEdit_wraps_foreign_errors_only
                (settles (Fulfilled (completionOf (Str []))))
                sampleService sampleRequest) as [_ [_ H]].
    exact (H (completionOf (Str [])) sampleRequest_valid eq_refl He).
Defined.

(** The prompt for instructions ["add logging"], originalContent ["a"] and
    codeEdit ["// ... existing code ...\nb"]. *)
Lemma applyEdit_sends_template_prompt_witness :
  validRequest sampleRequest
  ∧ formatMorphPrompt sampleRequest = samplePrompt
  ∧ remoteCalls (trace (applyEdit (settles (Fulfilled (completionOf (Str (lit "X")))))
                                  sampleService sampleRequest))
    = [ {| model := lit "morph-v3-large";
           messages := [ {| role := lit "user"; content := samplePrompt |} ];
           max_tokens := None;
           stream := false |} ].
Proof.
  split; [exact sampleRequest_valid|].
  destruct (applyEdit_sends_template_prompt
              (settles (Fulfilled (completionOf (Str (lit "X")))))
              sampleService
              (lit "add logging") (lit "a")
              (lit "// ... existing code ..." ++ [LF] ++ lit "b")) as [Hp Hc].
  split; [exact Hp | exact (Hc sampleRequest_valid)].
Defined.

(** A new file is accepted; [originalContent] [undefined] is not. *)
Lemma applyEdit_originalContent_presence_witness :
  (blank (lit "add logging") = false
   ∧ blank (lit "b") = false
   ∧ isNullish (originalContent absentOriginalRequest) = true)
  ∧ validateEditRequest
      {| instructions := Str (lit "add logging");
         originalContent := Str [];
         codeEdit := Str (lit "b") |}
    = mkEff [] (Normal tt)
  ∧ ∃ t, isValidationError t
         ∧ applyEdit (settles (Fulfilled (completionOf (Str (lit "X")))))
                     sampleService absentOriginalRequest
           = mkEff [] (Abrupt t).
Proof.
  split; [repeat split; reflexivity|].
  destruct (applyEdit_originalContent_presence
              (settles (Fulfilled (completionOf (Str (lit "X")))))
              sampleService (lit "add logging") (lit "b") absentOriginalRequest
              eq_refl eq_refl eq_refl) as [Hv [_ Ht]].
  split; [exact Hv | exact Ht].
Defined.

(** codeEdit ["b"] against originalContent ["a"]: one warning, and the call. *)
Lemma applyEdit_marker_check_warns_only_witness :
  (blank (lit "add logging") = false ∧ blank (lit "b") = false
   ∧ hasMarker (lit "b") = false ∧ lit "a" ≠ [])
  ∧ warnings
      (trace (applyEdit (settles (Fulfilled (completionOf (Str (lit "X")))))
                        sampleService
                        {| instructions := Str (lit "add logging");
                           originalContent := Str (lit "a");
                           codeEdit := Str (lit "b") |}))
    = [MSG_NO_MARKERS]
  ∧ remoteCalls
      (trace (applyEdit (settles (Fulfilled (completionOf (Str (lit "X")))))
                        sampleService
                        {| instructions := Str (lit "add logging");
                           originalContent := Str (lit "a");
                           codeEdit := Str (lit "b") |}))
    = [editParams {| instructions := Str (lit "add logging");
                     originalContent := Str (lit "a");
                     codeEdit := Str (lit "b") |}].
Proof.
  split; [repeat split; (reflexivity || discriminate)|].
  destruct (applyEdit_marker_check_warns_only
              (settles (Fulfilled (completionOf (Str (lit "X")))))
              sampleService (lit "add logging") (lit "a") (lit "b")
              eq_refl eq_refl) as [Hw [_ [Hc _]]].
  split; [|exact Hc].
  apply Hw; [reflexivity | discriminate].
Defined.

(** The service created from a store with the flag and the credential only. *)
Lemma defaults_of_timeout_and_endpoint_witness :
  (timeout {| apiKey := VString (lit "sk-test");
              baseUrl := VString (lit "https://example.test/v1");
              timeout := None |} = None
   ∧ globalState sampleCache !! "morphBaseUrl" = None
   ∧ result (createMorphService sampleCache) = Normal (Some sampleService))
  ∧ opt_timeout
      (client (constructor {| apiKey := VString (lit "sk-test");
                              baseUrl := VString (lit "https://example.test/v1");
                              timeout := None |})) = Some 30000%Z
  ∧ baseUrl (config sampleService) = VString (lit "https://api.morphllm.com/v1").
Proof.
  assert (globalState sampleCache !! "morphBaseUrl" = None) as Hb
    by (vm_compute; reflexivity).
  assert (result (createMorphService sampleCache) = Normal (Some sampleService))
    as Hs by (vm_compute; reflexivity).
  split; [repeat split; assumption|].
  destruct (defaults_of_timeout_and_endpoint
              {| apiKey := VString (lit "sk-test");
                 baseUrl := VString (lit "https://example.test/v1");
                 timeout := None |}
              sampleCache sampleService eq_refl Hb Hs) as [[_ Ht] [Hu _]].
  split; [exact Ht | exact Hu].
Defined.

(** No choice, and one choice without message. *)
Lemma applyEdit_guards_missing_choice_witness :
  (validRequest sampleRequest
   ∧ (choices {| choices := [] |} = []
      ∨ ∃ rest, choices {| choices := [] |} = {| choice_message := None |} :: rest))
  ∧ result (applyEdit (settles (Fulfilled {| choices := [] |}))
                      sampleService sampleRequest)
    = Abrupt (ThrowError (MorphError MSG_EMPTY None))
  ∧ result (applyEdit
              (settles (Fulfilled {| choices := [ {| choice_message := None |} ] |}))
              sampleService sampleRequest)
    = Abrupt (ThrowError (MorphError MSG_EMPTY None)).
Proof.
  split; [split; [exact sampleRequest_valid | left; reflexivity]|].
  split.
  - apply (applyEdit_guards_missing_choice
             (settles (Fulfilled {| choices := [] |}))
             sampleService sampleRequest {| choices := [] |}
             sampleRequest_valid eq_refl).
    left; reflexivity.
  - apply (applyEdit_guards_missing_choice
             (settles (Fulfilled {| choices := [ {| choice_message := None |} ] |}))
             sampleService sampleRequest
             {| choices := [ {| choice_message := None |} ] |}
             sampleRequest_valid eq_refl).
    right. exists []. reflexivity.
Defined.

(** C5, as first stated, fails: a response without any choice is a
    malformed response, and the check still answers [true], because
    [validateApiKey] does not look at what the fulfilled call returned. *)
Lemma validateApiKey_true_on_malformed_response :
  choices malformedCompletion = []
  ∧ firstContent malformedCompletion = Undefined
  ∧ result (validateApiKey (settles (Fulfilled malformedCompletion)) sampleService)
    = Normal true
  ∧ result (validateApiKey (settles (Fulfilled malformedCompletion)) sampleService)
    ≠ Normal false.
Proof. repeat split. discriminate. Qed.

(** * Further properties of the service *)

(** ** Validation *)

Lemma markerWarning_cases o c :
  markerWarning o c = [] ∨ markerWarning o c = [ConsoleWarn MSG_NO_MARKERS].
Proof.
  unfold markerWarning.
  destruct (negb (hasMarker c) && (0 <? length o)%nat); auto.
Qed.

Lemma validRequest_result request :
  validRequest request → result (validateEditRequest request) = Normal tt.
Proof.
  intros [i [o [c [-> [Hi Hc]]]]]. by rewrite (validate_accepts i o c Hi Hc).
Qed.

(** X1. Validation ends in one of two ways only: normally, exactly for
    the requests that pass the three preconditions, or with one of its
    three errors and no console output.  The member accesses [.includes]
    and [.length] are never reached on a missing field: there is no
    [TypeError]. *)
Theorem validateEditRequest_dichotomy request :
  (validRequest request ↔ result (validateEditRequest request) = Normal tt)
  ∧ (¬ validRequest request ↔
     ∃ t, isValidationError t
          ∧ validateEditRequest request = mkEff [] (Abrupt t)).
Proof.
  destruct (validate_cases request) as [Hv | [t [Ht Heq]]].
  - pose proof (validRequest_result request Hv) as Hr. split.
    + by split.
    + split; [done|]. intros [t [_ Heq]]. rewrite Heq in Hr. discriminate.
  - assert (¬ validRequest request) as Hn.
    { intros Hv. apply validRequest_result in Hv. rewrite Heq in Hv.
      discriminate. }
    split.
    + split; [done|]. rewrite Heq. discriminate.
    + split; [eauto | done].
Qed.

Section Further.

Variable transport : ClientOptions → ChatCompletionParams → settled.
Variable this : MorphService.

(** X2. A request whose [instructions] or [codeEdit] is [undefined] or
    [null] is rejected like a blank one: a validation error, nothing sent,
    nothing written to the console. *)
Theorem applyEdit_absent_field_rejected request :
  isNullish (instructions request) = true
  ∨ isNullish (codeEdit request) = true →
  ∃ t, isValidationError t
       ∧ applyEdit transport this request = mkEff [] (Abrupt t).
Proof.
  intros H. apply applyEdit_invalid.
  intros [i [o [c [-> _]]]]. by destruct H.
Qed.

(** X3. The preconditions are checked in the order instructions,
    originalContent, codeEdit, and the first that fails decides the error:
    a request with several invalid fields reports the earliest one. *)
Theorem applyEdit_reports_first_failure request :
  (truthy (optTrim (instructions request)) = false →
   result (applyEdit transport this request)
   = Abrupt (ThrowError (MorphError MSG_INSTRUCTIONS None)))
  ∧ (truthy (optTrim (instructions request)) = true →
     isNullish (originalContent request) = true →
     result (applyEdit transport this request)
     = Abrupt (ThrowError (MorphError MSG_ORIGINAL None)))
  ∧ (truthy (optTrim (instructions request)) = true →
     isNullish (originalContent request) = false →
     truthy (optTrim (codeEdit request)) = false →
     result (applyEdit transport this request)
     = Abrupt (ThrowError (MorphError MSG_CODE_EDIT None))).
Proof.
  unfold applyEdit. split; [|split].
  - intros H. by rewrite (validate_instructions request H).
  - intros H1 H2. by rewrite (validate_originalContent request H1 H2).
  - intros H1 H2 H3. by rewrite (validate_codeEdit request H1 H2 H3).
Qed.

(** ** The trace of [applyEdit] *)

(** The three traces [applyEdit] can leave. *)
Lemma applyEdit_trace_cases request :
  (¬ validRequest request ∧ trace (applyEdit transport this request) = [])
  ∨ (validRequest request
     ∧ (trace (applyEdit transport this request)
        = [RemoteCall (client this) (editParams request)]
        ∨ trace (applyEdit transport this request)
          = [ConsoleWarn MSG_NO_MARKERS;
             RemoteCall (client this) (editParams request)])).
Proof.
  destruct (validate_cases request) as [Hv | [t [Ht Heq]]].
  - right. split; [done|].
    destruct Hv as [i [o [c [-> [Hi Hc]]]]].
    rewrite (applyEdit_valid transport this i o c Hi Hc). cbn [trace].
    destruct (markerWarning_cases o c) as [-> | ->]; auto.
  - left. split.
    + intros Hv. apply validRequest_result in Hv. rewrite Heq in Hv.
      discriminate.
    + unfold applyEdit. rewrite Heq. by destruct Ht as [-> | [-> | ->]].
Qed.

(** X4. [applyEdit] invokes [client.chat.completions.create] at most
    once, whatever the outcome, and only for a request that passed
    validation: it has no loop and no retry of its own.  The invocation
    goes through the client of the service, is not streamed, names the
    fixed model and sets no token limit. *)
Theorem applyEdit_at_most_one_call request :
  (length (remoteCalls (trace (applyEdit transport this request))) ≤ 1)%nat
  ∧ ∀ c p, RemoteCall c p ∈ trace (applyEdit transport this request) →
           validRequest request
           ∧ c = client this
           ∧ p = editParams request
           ∧ model p = MORPH_FAST_APPLY_MODEL
           ∧ stream p = false
           ∧ max_tokens p = None.
Proof.
  destruct (applyEdit_trace_cases request) as [[Hn ->] | [Hv [-> | ->]]].
  - split; [cbn; lia|]. by intros c p []%elem_of_nil.
  - split; [apply le_n|].
    intros c p [[= -> ->] | []%elem_of_nil]%elem_of_cons. done.
  - split; [apply le_n|].
    intros c p [[=] | [[= -> ->] | []%elem_of_nil]%elem_of_cons]%elem_of_cons.
    done.
Qed.

(** X5. The trace of [applyEdit] is its warnings followed by its remote
    calls: the marker warning, if any, comes before the call, and nothing
    else is written to the console, also when the call fails. *)
Theorem applyEdit_trace_shape request :
  let tr := trace (applyEdit transport this request) in
  tr = map ConsoleWarn (warnings tr) ++ map (RemoteCall (client this)) (remoteCalls tr)
  ∧ (∀ m, m ∈ warnings tr → m = MSG_NO_MARKERS).
Proof.
  intros tr. subst tr.
  destruct (applyEdit_trace_cases request) as [[Hn ->] | [Hv [-> | ->]]].
  - split; [done|]. by intros m []%elem_of_nil.
  - split; [done|]. by intros m []%elem_of_nil.
  - split; [done|]. by intros m [-> | []%elem_of_nil]%elem_of_cons.
Qed.

End Further.

(** ** The outcome of [applyEdit] *)

Section Outcome.

Variable transport : ClientOptions → ChatCompletionParams → settled.
Variable this : MorphService.

(** X6. Whatever the request and whatever the transport does, also when
    it rejects with a value that is no [Error], a failure of [applyEdit]
    is a [MorphError]. *)
Theorem applyEdit_fails_with_MorphError_only request t :
  result (applyEdit transport this request) = Abrupt t →
  ∃ m c, t = ThrowError (MorphError m c).
Proof.
  destruct (validate_cases request) as [Hv | Hn].
  - destruct Hv as [i [o [c [-> [Hi Hc]]]]].
    rewrite (applyEdit_valid transport this i o c Hi Hc). cbn [result].
    destruct (transport _ _) as [r|t']; cbn [afterCall].
    + destruct (truthy (firstContent r)); [discriminate|].
      intros [= <-]. by eexists _, _.
    + unfold wrapError.
      destruct t' as [[m c'|n m]|v]; cbn; intros [= <-]; by eexists _, _.
  - destruct Hn as [t' [Ht Hv]]. unfold applyEdit. rewrite Hv.
    destruct Ht as [-> | [-> | ->]]; cbn; intros [= <-]; by eexists _, _.
Qed.

(** X7. [applyEdit] returns a value only when the request passed
    validation and the call was fulfilled; the value is then the content of
    the first choice, a string that is not empty. *)
Theorem applyEdit_success_provenance request v :
  result (applyEdit transport this request) = Normal v →
  validRequest request
  ∧ (∃ r, transport (client this) (editParams request) = Fulfilled r
          ∧ firstContent r = v)
  ∧ (∃ X, v = Str X ∧ X ≠ []).
Proof.
  destruct (validate_cases request) as [Hv | Hn].
  - intros H. split; [done|].
    destruct Hv as [i [o [c [-> [Hi Hc]]]]].
    rewrite (applyEdit_valid transport this i o c Hi Hc) in H.
    cbn [result] in H.
    destruct (transport _ _) as [r|t']; cbn [afterCall] in H.
    + destruct (truthy (firstContent r)) eqn:Ht; [|discriminate].
      injection H as <-. split; [by exists r|].
      destruct (firstContent r) as [| |[|a X]]; try discriminate.
      by eexists.
    + destruct (wrapError_abrupt t') as [t'' Ht]. rewrite Ht in H.
      discriminate.
  - destruct Hn as [t' [Ht Hv]]. unfold applyEdit. rewrite Hv.
    by destruct Ht as [-> | [-> | ->]].
Qed.

(** X8. When the transport rejects with a value that is no instance of
    [Error], [applyEdit] fails with a [MorphError] whose message ends in
    ["Unknown error"] and which has no cause: the thrown value is lost. *)
Theorem applyEdit_wraps_non_error_without_cause request v :
  validRequest request →
  transport (client this) (editParams request) = Rejected (ThrowValue v) →
  result (applyEdit transport this request)
  = Abrupt (ThrowError
      (MorphError (lit "Morph API request failed: Unknown error") None)).
Proof.
  intros [i [o [c [-> [Hi Hc]]]]] Hr.
  rewrite (applyEdit_valid transport this i o c Hi Hc). cbn [result].
  by rewrite Hr.
Qed.

(** X9. A [MorphError] the call rejects with reaches the caller as it
    is, message and cause untouched: the [catch] clause wraps no
    [MorphError], wherever it comes from. *)
Theorem applyEdit_passes_MorphError_through request m c :
  validRequest request →
  transport (client this) (editParams request)
  = Rejected (ThrowError (MorphError m c)) →
  result (applyEdit transport this request)
  = Abrupt (ThrowError (MorphError m c)).
Proof.
  intros [i [o [c' [-> [Hi Hc]]]]] Hr.
  rewrite (applyEdit_valid transport this i o c' Hi Hc). cbn [result].
  by rewrite Hr.
Qed.

(** ** The marker check *)

Lemma hasMarker_spec c :
  hasMarker c = true ↔ ∃ a b m, m ∈ MARKERS ∧ c = a ++ m ++ b.
Proof.
  unfold hasMarker, MARKERS. rewrite !orb_true_iff, !includes_spec. split.
  - intros [[[a [b ->]] | [a [b ->]]] | [a [b ->]]]; exists a, b; eexists;
      (split; [|reflexivity]); set_solver.
  - intros [a [b [m [Hm ->]]]].
    apply elem_of_cons in Hm as [-> | Hm]; [left; left; eauto|].
    apply elem_of_cons in Hm as [-> | Hm]; [left; right; eauto|].
    apply elem_of_cons in Hm as [-> | Hm]; [right; eauto|].
    by apply elem_of_nil in Hm.
Qed.

(** X10. For a request that passes the preconditions, [applyEdit] stays
    silent exactly when [originalContent] is empty or one of the three
    markers occurs somewhere in [codeEdit], whatever surrounds it. *)
Theorem applyEdit_silent_iff_marker_occurs i o c :
  blank i = false → blank c = false →
  warnings (trace (applyEdit transport this
     {| instructions := Str i; originalContent := Str o; codeEdit := Str c |}))
  = []
  ↔ o = [] ∨ ∃ a b m, m ∈ MARKERS ∧ c = a ++ m ++ b.
Proof.
  intros Hi Hc. rewrite (applyEdit_valid transport this i o c Hi Hc).
  cbn [trace]. rewrite <- hasMarker_spec. unfold markerWarning.
  destruct (hasMarker c), o as [|a o]; cbn; split; auto.
  - discriminate.
  - intros [? | ?]; discriminate.
Qed.

End Outcome.

(** ** The prompt *)

(** The first occurrence of a code unit splits a string in one way only. *)
Lemma split_at_first (x : code_unit) (t s1 s2 r1 r2 : jsstring) :
  x ∉ s1 → x ∉ s2 →
  s1 ++ (x :: t) ++ r1 = s2 ++ (x :: t) ++ r2 →
  s1 = s2 ∧ r1 = r2.
Proof.
  revert s2. induction s1 as [|a s1 IH]; intros [|b s2] H1 H2 H; cbn in H.
  - injection H as H. by apply app_inv_head in H.
  - injection H as -> _. destruct H2. by left.
  - injection H as -> _. destruct H1. by left.
  - injection H as -> H.
    apply not_elem_of_cons in H1 as [_ H1].
    apply not_elem_of_cons in H2 as [_ H2].
    by destruct (IH s2 H1 H2 H) as [-> ->].
Qed.

(** X11. The prompt does not determine the request: the fields are not
    escaped, so text that looks like a tag can move from one field to the
    next.  Two valid requests that differ have the same prompt. *)
Theorem formatMorphPrompt_not_injective :
  ∃ r1 r2, validRequest r1 ∧ validRequest r2 ∧ r1 ≠ r2
           ∧ formatMorphPrompt r1 = formatMorphPrompt r2.
Proof.
  exists ambiguousRequest1, ambiguousRequest2.
  split; [|split; [|split]].
  - eexists _, _, _. split; [reflexivity|]. split; reflexivity.
  - eexists _, _, _. split; [reflexivity|]. split; reflexivity.
  - discriminate.
  - reflexivity.
Qed.

(** X12. When [instructions] and [originalContent] hold no [<], the
    prompt determines the three fields. *)
Theorem formatMorphPrompt_injective_tag_free i1 o1 c1 i2 o2 c2 :
  tagFree i1 → tagFree o1 → tagFree i2 → tagFree o2 →
  formatMorphPrompt
    {| instructions := Str i1; originalContent := Str o1; codeEdit := Str c1 |}
  = formatMorphPrompt
      {| instructions := Str i2; originalContent := Str o2; codeEdit := Str c2 |} →
  i1 = i2 ∧ o1 = o2 ∧ c1 = c2.
Proof.
  unfold tagFree, formatMorphPrompt.
  cbn [toString instructions originalContent codeEdit].
  intros Hi1 Ho1 Hi2 Ho2 H.
  apply app_inv_head in H.
  rewrite !(app_assoc (lit "</instruction>")) in H.
  apply (split_at_first LT (lit "/instruction>" ++ [LF] ++ lit "<code>")) in H
    as [-> H]; [|done..].
  rewrite !(app_assoc (lit "</code>")) in H.
  apply (split_at_first LT (lit "/code>" ++ [LF] ++ lit "<update>")) in H
    as [-> H]; [|done..].
  by apply app_inv_tail in H.
Qed.

(** ** The constructor *)

(** When [new OpenAI] throws, so does the constructor, with that error. *)
Lemma construct_throws newOpenAI cfg e :
  newOpenAI (client (constructor cfg)) = Some e →
  construct newOpenAI cfg = Abrupt (ThrowError e).
Proof. intros H. unfold construct. cbv zeta. by rewrite H. Qed.

(** X13. Whenever the constructor returns, that is whenever [new OpenAI]
    accepts the options, the service keeps the credential and the
    endpoint it was given; its timeout is defined, the given one when there
    is one and 30000 otherwise; the options of its client mirror its
    configuration; and constructing from the configuration of the service
    gives that service again. *)
Theorem constructor_invariants newOpenAI cfg s :
  construct newOpenAI cfg = Normal s →
  apiKey (config s) = apiKey cfg
  ∧ baseUrl (config s) = baseUrl cfg
  ∧ timeout (config s) = Some (default 30000%Z (timeout cfg))
  ∧ (∀ n, timeout cfg = Some n → opt_timeout (client s) = Some n)
  ∧ client s = {| opt_apiKey := apiKey (config s);
                  opt_baseURL := baseUrl (config s);
                  opt_timeout := timeout (config s) |}
  ∧ construct newOpenAI (config s) = Normal s.
Proof.
  unfold construct. cbv zeta.
  destruct (newOpenAI (client (constructor cfg))) as [e|] eqn:Hn;
    [discriminate|].
  intros [= <-].
  assert (constructor (config (constructor cfg)) = constructor cfg) as Hi
    by (by destruct cfg as [k u [n|]]).
  rewrite Hi, Hn.
  destruct cfg as [k u [n|]]; cbn; repeat split; done.
Qed.

(** ** [createMorphService] and [isMorphAvailable] *)

Lemma createMorphService_trace cache :
  trace (createMorphService cache)
  = [ firstLog cache;
      if toBoolean (getGlobalStateKey cache "morphEnabled")
         && toBoolean (getSecretKey cache "morphApiKey")
      then ConsoleLog
        [ VString (lit "[MORPH DEBUG] createMorphService returning MorphService instance") ]
      else ConsoleLog
        [ VString (lit "[MORPH DEBUG] createMorphService returning null - morphEnabled:");
          getGlobalStateKey cache "morphEnabled";
          VString (lit "morphApiKey present:");
          VBool (toBoolean (getSecretKey cache "morphApiKey")) ] ].
Proof.
  unfold createMorphService, firstLog.
  by destruct (toBoolean (getGlobalStateKey cache "morphEnabled")),
              (toBoolean (getSecretKey cache "morphApiKey")).
Qed.

Lemma getSecretKey_withSecret k cache :
  getSecretKey (withSecret "morphApiKey" k cache) "morphApiKey" = VString k.
Proof.
  unfold getSecretKey, withSecret. cbn [secrets].
  by rewrite lookup_insert_eq.
Qed.

(** X14. What [createMorphService] writes to the console depends on the
    credential only through whether it is set: two stores that differ in
    the value of a non-empty credential give the same console output. *)
Theorem createMorphService_log_hides_credential cache (k1 k2 : jsstring) :
  k1 ≠ [] → k2 ≠ [] →
  trace (createMorphService (withSecret "morphApiKey" k1 cache))
  = trace (createMorphService (withSecret "morphApiKey" k2 cache)).
Proof.
  intros H1 H2. rewrite !createMorphService_trace. unfold firstLog.
  rewrite !getSecretKey_withSecret.
  change (getGlobalStateKey (withSecret "morphApiKey" k1 cache))
    with (getGlobalStateKey cache).
  change (getGlobalStateKey (withSecret "morphApiKey" k2 cache))
    with (getGlobalStateKey cache).
  by destruct k1, k2.
Qed.

(** X15. [createMorphService] and [isMorphAvailable] read the keys
    [morphEnabled], [morphBaseUrl] and [morphApiKey] and nothing else: two
    stores that agree on these three give the same console output, the
    same service and the same answer. *)
Theorem index_reads_three_keys_only c1 c2 :
  sameMorphKeys c1 c2 →
  createMorphService c1 = createMorphService c2
  ∧ isMorphAvailable c1 = isMorphAvailable c2.
Proof.
  intros [He [Hb Hk]].
  unfold createMorphService, isMorphAvailable, getGlobalStateKey, getSecretKey.
  by rewrite He, Hb, Hk.
Qed.

(** X16. [createMorphService] never throws and never calls the remote
    service; it writes two lines to the console, no warning, and returns
    a service or [null]. *)
Theorem createMorphService_quiet cache :
  (∃ o, result (createMorphService cache) = Normal o)
  ∧ remoteCalls (trace (createMorphService cache)) = []
  ∧ warnings (trace (createMorphService cache)) = []
  ∧ length (trace (createMorphService cache)) = 2%nat.
Proof.
  rewrite createMorphService_result, createMorphService_trace.
  split; [by eexists|]. unfold firstLog.
  by destruct (toBoolean (getGlobalStateKey cache "morphEnabled")
               && toBoolean (getSecretKey cache "morphApiKey")).
Qed.

(** X17. The service created for a configured store holds the stored
    credential as it is and the timeout 30000; a stored endpoint that is a
    non-empty string is used as it is, and an empty one gives way to
    [https://api.morphllm.com/v1]. *)
Theorem createMorphService_uses_stored_settings cache (k : jsstring) :
  toBoolean (getGlobalStateKey cache "morphEnabled") = true →
  secrets cache !! "morphApiKey" = Some k → k ≠ [] →
  ∃ svc, result (createMorphService cache) = Normal (Some svc)
         ∧ apiKey (config svc) = VString k
         ∧ timeout (config svc) = Some 30000%Z
         ∧ (∀ u, u ≠ [] →
                 globalState cache !! "morphBaseUrl" = Some (VString u) →
                 baseUrl (config svc) = VString u)
         ∧ (globalState cache !! "morphBaseUrl" = Some (VString []) →
            baseUrl (config svc) = VString (lit "https://api.morphllm.com/v1")).
Proof.
  intros He Hk Hne. rewrite createMorphService_result, He.
  unfold getSecretKey. rewrite Hk. cbn [from_option].
  destruct k as [|a k]; [done|]. cbn [toBoolean andb].
  eexists. split; [reflexivity|]. cbn [constructor config apiKey timeout baseUrl].
  split; [done|]. split; [done|]. unfold getGlobalStateKey. split.
  - intros u Hu ->. by destruct u.
  - by intros ->.
Qed.

(** X18. A disabled flag, a flag that is not set and a credential that is
    not set or empty each make the service unavailable: [isMorphAvailable]
    answers [false] and [createMorphService] returns [null]. *)
Theorem unavailable_when_setting_missing cache :
  toBoolean (getGlobalStateKey cache "morphEnabled") = false
  ∨ globalState cache !! "morphEnabled" = None
  ∨ secrets cache !! "morphApiKey" = (None : option jsstring)
  ∨ secrets cache !! "morphApiKey" = Some ([] : jsstring) →
  isMorphAvailable cache = false
  ∧ result (createMorphService cache) = Normal None.
Proof.
  rewrite createMorphService_result, isMorphAvailable_eq.
  intros [H | [H | [H | H]]].
  - by rewrite H.
  - unfold getGlobalStateKey. by rewrite H.
  - unfold getSecretKey. rewrite H. cbn [from_option toBoolean].
    by rewrite andb_false_r.
  - unfold getSecretKey. rewrite H. cbn [from_option toBoolean].
    by rewrite andb_false_r.
Qed.

(** ** From the store to the remote call *)

(** X19. The call [applyEdit] issues through a service that
    [createMorphService] created carries the stored credential, the endpoint
    chosen from the store and the timeout 30000. *)
Theorem created_service_calls_with_stored_credential
    transport cache svc (k : jsstring) request :
  secrets cache !! "morphApiKey" = Some k →
  result (createMorphService cache) = Normal (Some svc) →
  validRequest request →
  ∃ c, RemoteCall c (editParams request) ∈ trace (applyEdit transport svc request)
       ∧ opt_apiKey c = VString k
       ∧ opt_baseURL c
         = JS.or (getGlobalStateKey cache "morphBaseUrl")
                 (VString (lit "https://api.morphllm.com/v1"))
       ∧ opt_timeout c = Some 30000%Z.
Proof.
  intros Hk Hs Hv. rewrite createMorphService_result in Hs.
  destruct (toBoolean (getGlobalStateKey cache "morphEnabled")
            && toBoolean (getSecretKey cache "morphApiKey")); [|discriminate].
  injection Hs as <-. unfold getSecretKey. rewrite Hk. cbn [from_option].
  eexists. split.
  - destruct (applyEdit_trace_cases transport
                (constructor
                   {| apiKey := VString k;
                      baseUrl := JS.or (getGlobalStateKey cache "morphBaseUrl")
                                       (VString (lit "https://api.morphllm.com/v1"));
                      timeout := None |}) request)
      as [[Hn _] | [_ [-> | ->]]]; [done| |].
    + by left.
    + right; by left.
  - done.
Qed.

(** ** The further properties at concrete inputs *)

(** [instructions] is [null]. *)
Lemma applyEdit_absent_field_rejected_witness :
  (isNullish (instructions allInvalidRequest) = true
   ∨ isNullish (codeEdit allInvalidRequest) = true)
  ∧ ∃ t, isValidationError t
         ∧ applyEdit (settles (Fulfilled (completionOf (Str (lit "X")))))
                     sampleService allInvalidRequest
           = mkEff [] (Abrupt t).
Proof.
  assert (isNullish (instructions allInvalidRequest) = true
          ∨ isNullish (codeEdit allInvalidRequest) = true) as H
    by (left; reflexivity).
  split; [exact H|].
  exact (applyEdit_absent_field_rejected _ sampleService allInvalidRequest H).
Defined.

(** All three fields invalid: the error is the one for [instructions];
    with [instructions] valid, the one for [originalContent]. *)
Lemma applyEdit_reports_first_failure_witness :
  (truthy (optTrim (instructions allInvalidRequest)) = false
   ∧ result (applyEdit (settles (Fulfilled (completionOf (Str (lit "X")))))
                       sampleService allInvalidRequest)
     = Abrupt (ThrowError (MorphError MSG_INSTRUCTIONS None)))
  ∧ (truthy (optTrim (instructions absentOriginalRequest)) = true
     ∧ isNullish (originalContent absentOriginalRequest) = true
     ∧ result (applyEdit (settles (Fulfilled (completionOf (Str (lit "X")))))
                         sampleService absentOriginalRequest)
       = Abrupt (ThrowError (MorphError MSG_ORIGINAL None))).
Proof.
  split.
  - split; [reflexivity|].
    destruct (applyEdit_reports_first_failure
                (settles (Fulfilled (completionOf (Str (lit "X")))))
                sampleService allInvalidRequest) as [H _].
    exact (H eq_refl).
  - split; [reflexivity|]. split; [reflexivity|].
    destruct (applyEdit_reports_first_failure
                (settles (Fulfilled (completionOf (Str (lit "X")))))
                sampleService absentOriginalRequest) as [_ [H _]].
    exact (H eq_refl eq_refl).
Defined.

(** The transport rejects with [null]. *)
Lemma applyEdit_fails_with_MorphError_only_witness :
  result (applyEdit (settles (Rejected (ThrowValue VNull)))
                    sampleService sampleRequest)
  = Abrupt (ThrowError
      (MorphError (lit "Morph API request failed: Unknown error") None))
  ∧ ∃ m c,
      ThrowError (MorphError (lit "Morph API request failed: Unknown error") None)
      = ThrowError (MorphError m c).
Proof.
  assert (result (applyEdit (settles (Rejected (ThrowValue VNull)))
                            sampleService sampleRequest)
          = Abrupt (ThrowError
              (MorphError (lit "Morph API request failed: Unknown error") None)))
    as H by reflexivity.
  split; [exact H|].
  exact (applyEdit_fails_with_MorphError_only _ sampleService sampleRequest _ H).
Defined.

(** The call is fulfilled with content ["X"]. *)
Lemma applyEdit_success_provenance_witness :
  result (applyEdit (settles (Fulfilled (completionOf (Str (lit "X")))))
                    sampleService sampleRequest)
  = Normal (Str (lit "X"))
  ∧ validRequest sampleRequest
  ∧ ∃ X, Str (lit "X") = Str X ∧ X ≠ [].
Proof.
  assert (result (applyEdit (settles (Fulfilled (completionOf (Str (lit "X")))))
                            sampleService sampleRequest)
          = Normal (Str (lit "X"))) as H by reflexivity.
  split; [exact H|].
  destruct (applyEdit_success_provenance _ sampleService sampleRequest _ H)
    as [Hv [_ HX]].
  split; [exact Hv | exact HX].
Defined.

(** The transport rejects with the string ["boom"]. *)
Lemma applyEdit_wraps_non_error_without_cause_witness :
  validRequest sampleRequest
  ∧ result (applyEdit (settles (Rejected (ThrowValue (VString (lit "boom")))))
                      sampleService sampleRequest)
    = Abrupt (ThrowError
        (MorphError (lit "Morph API request failed: Unknown error") None)).
Proof.
  split; [exact sampleRequest_valid|].
  exact (applyEdit_wraps_non_error_without_cause
           (settles (Rejected (ThrowValue (VString (lit "boom")))))
           sampleService sampleRequest (VString (lit "boom"))
           sampleRequest_valid eq_refl).
Defined.

(** The transport rejects with a [MorphError] that has a cause. *)
Lemma applyEdit_passes_MorphError_through_witness :
  validRequest sampleRequest
  ∧ result (applyEdit
              (settles (Rejected (ThrowError
                 (MorphError (lit "inner") (Some networkError)))))
              sampleService sampleRequest)
    = Abrupt (ThrowError (MorphError (lit "inner") (Some networkError))).
Proof.
  split; [exact sampleRequest_valid|].
  exact (applyEdit_passes_MorphError_through
           (settles (Rejected (ThrowError
              (MorphError (lit "inner") (Some networkError)))))
           sampleService sampleRequest (lit "inner") (Some networkError)
           sampleRequest_valid eq_refl).
Defined.

(** The marker [// ... existing code ...] at the start of [codeEdit]. *)
Lemma applyEdit_silent_iff_marker_occurs_witness :
  (blank (lit "add logging") = false
   ∧ blank (lit "// ... existing code ..." ++ [LF] ++ lit "b") = false)
  ∧ warnings (trace (applyEdit
       (settles (Fulfilled (completionOf (Str (lit "X"))))) sampleService
       {| instructions := Str (lit "add logging");
          originalContent := Str (lit "a");
          codeEdit := Str (lit "// ... existing code ..." ++ [LF] ++ lit "b") |}))
    = [].
Proof.
  split; [split; reflexivity|].
  apply (applyEdit_silent_iff_marker_occurs
           (settles (Fulfilled (completionOf (Str (lit "X"))))) sampleService
           (lit "add logging") (lit "a")
           (lit "// ... existing code ..." ++ [LF] ++ lit "b")
           eq_refl eq_refl).
  right. exists [], ([LF] ++ lit "b"), MARKER_SLASH.
  split; [left | reflexivity].
Defined.

(** Fields without [<]. *)
Lemma formatMorphPrompt_injective_tag_free_witness :
  (tagFree (lit "add logging") ∧ tagFree (lit "a"))
  ∧ (lit "add logging" = lit "add logging" ∧ lit "a" = lit "a"
     ∧ lit "b" = lit "b").
Proof.
  assert (tagFree (lit "add logging")) as Hi.
  { apply (bool_decide_unpack _). vm_compute. exact I. }
  assert (tagFree (lit "a")) as Ho.
  { apply (bool_decide_unpack _). vm_compute. exact I. }
  split; [split; assumption|].
  exact (formatMorphPrompt_injective_tag_free
           (lit "add logging") (lit "a") (lit "b")
           (lit "add logging") (lit "a") (lit "b")
           Hi Ho Hi Ho eq_refl).
Defined.

(** Two credentials in the same store. *)
Lemma createMorphService_log_hides_credential_witness :
  (lit "sk-one" ≠ [] ∧ lit "sk-two" ≠ [])
  ∧ trace (createMorphService (withSecret "morphApiKey" (lit "sk-one") sampleCache))
    = trace (createMorphService (withSecret "morphApiKey" (lit "sk-two") sampleCache)).
Proof.
  assert (lit "sk-one" ≠ []) as H1 by discriminate.
  assert (lit "sk-two" ≠ []) as H2 by discriminate.
  split; [split; assumption|].
  exact (createMorphService_log_hides_credential sampleCache _ _ H1 H2).
Defined.

(** A store with settings of other features. *)
Lemma index_reads_three_keys_only_witness :
  sameMorphKeys sampleCache busyCache
  ∧ createMorphService sampleCache = createMorphService busyCache
  ∧ isMorphAvailable sampleCache = isMorphAvailable busyCache.
Proof.
  assert (sameMorphKeys sampleCache busyCache) as H.
  { repeat split; vm_compute; reflexivity. }
  split; [exact H|].
  exact (index_reads_three_keys_only sampleCache busyCache H).
Defined.

(** A store with an endpoint of its own. *)
Lemma createMorphService_uses_stored_settings_witness :
  (toBoolean (getGlobalStateKey customCache "morphEnabled") = true
   ∧ secrets customCache !! "morphApiKey" = Some (lit "sk-test")
   ∧ lit "sk-test" ≠ [])
  ∧ ∃ svc, result (createMorphService customCache) = Normal (Some svc)
           ∧ apiKey (config svc) = VString (lit "sk-test")
           ∧ baseUrl (config svc) = VString (lit "https://morph.example/v1").
Proof.
  assert (toBoolean (getGlobalStateKey customCache "morphEnabled") = true) as He
    by (vm_compute; reflexivity).
  assert (secrets customCache !! "morphApiKey" = Some (lit "sk-test")) as Hk
    by (vm_compute; reflexivity).
  assert (lit "sk-test" ≠ []) as Hne by discriminate.
  split; [repeat split; assumption|].
  destruct (createMorphService_uses_stored_settings customCache (lit "sk-test")
              He Hk Hne) as [svc [Hs [Ha [_ [Hu _]]]]].
  exists svc. split; [exact Hs|]. split; [exact Ha|].
  apply Hu; [discriminate | vm_compute; reflexivity].
Defined.

(** The empty store. *)
Lemma unavailable_when_setting_missing_witness :
  globalState {| globalState := ∅; secrets := ∅ |} !! "morphEnabled" = None
  ∧ isMorphAvailable {| globalState := ∅; secrets := ∅ |} = false
  ∧ result (createMorphService {| globalState := ∅; secrets := ∅ |}) = Normal None.
Proof.
  assert (globalState {| globalState := ∅; secrets := ∅ |} !! "morphEnabled" = None)
    as H by (vm_compute; reflexivity).
  split; [exact H|].
  apply unavailable_when_setting_missing. right; left; exact H.
Defined.

(** From [sampleCache] to the call for [sampleRequest]. *)
Lemma created_service_calls_with_stored_credential_witness :
  (secrets sampleCache !! "morphApiKey" = Some (lit "sk-test")
   ∧ result (createMorphService sampleCache) = Normal (Some sampleService)
   ∧ validRequest sampleRequest)
  ∧ ∃ c, RemoteCall c (editParams sampleRequest)
           ∈ trace (applyEdit (settles (Fulfilled (completionOf (Str (lit "X")))))
                              sampleService sampleRequest)
         ∧ opt_apiKey c = VString (lit "sk-test")
         ∧ opt_timeout c = Some 30000%Z.
Proof.
  assert (secrets sampleCache !! "morphApiKey" = Some (lit "sk-test")) as Hk
    by (vm_compute; reflexivity).
  assert (result (createMorphService sampleCache) = Normal (Some sampleService))
    as Hs by (vm_compute; reflexivity).
  split; [repeat split; (assumption || exact sampleRequest_valid)|].
  destruct (created_service_calls_with_stored_credential
              (settles (Fulfilled (completionOf (Str (lit "X")))))
              sampleCache sampleService (lit "sk-test") sampleRequest
              Hk Hs sampleRequest_valid) as [c [Hc [Ha [_ Ht]]]].
  exists c. split; [exact Hc|]. split; [exact Ha | exact Ht].
Defined.

(** ** The credential check and the edit *)

(** X20. The test call of [validateApiKey] and the call of [applyEdit],
    made through the same service, carry the same client options
    (credential, endpoint, timeout) and name the same model: the check
    exercises what an edit will use. *)
Theorem validateApiKey_checks_what_applyEdit_uses
    transport this request c1 p1 c2 p2 :
  RemoteCall c1 p1 ∈ trace (validateApiKey transport this) →
  RemoteCall c2 p2 ∈ trace (applyEdit transport this request) →
  c1 = c2 ∧ c1 = client this ∧ model p1 = model p2.
Proof.
  intros H1 H2.
  assert (c2 = client this ∧ p2 = editParams request) as [-> ->].
  { destruct (applyEdit_trace_cases transport this request)
      as [[_ Ht] | [_ [Ht | Ht]]]; rewrite Ht in H2.
    - by apply elem_of_nil in H2.
    - apply list_elem_of_singleton in H2. by injection H2 as -> ->.
    - apply elem_of_cons in H2 as [[=] | H2].
      apply list_elem_of_singleton in H2. by injection H2 as -> ->. }
  unfold validateApiKey, create in H1.
  destruct (transport (client this) testParams);
    apply list_elem_of_singleton in H1; by injection H1 as -> ->.
Qed.

(** Both calls for [sampleService]. *)
Lemma validateApiKey_checks_what_applyEdit_uses_witness :
  (RemoteCall (client sampleService) testParams
     ∈ trace (validateApiKey (settles (Fulfilled (completionOf (Str (lit "X")))))
                             sampleService)
   ∧ RemoteCall (client sampleService) (editParams sampleRequest)
       ∈ trace (applyEdit (settles (Fulfilled (completionOf (Str (lit "X")))))
                          sampleService sampleRequest))
  ∧ model testParams = model (editParams sampleRequest).
Proof.
  assert (RemoteCall (client sampleService) testParams
            ∈ trace (validateApiKey
                       (settles (Fulfilled (completionOf (Str (lit "X")))))
                       sampleService)) as H1 by left.
  assert (RemoteCall (client sampleService) (editParams sampleRequest)
            ∈ trace (applyEdit
                       (settles (Fulfilled (completionOf (Str (lit "X")))))
                       sampleService sampleRequest)) as H2 by left.
  split; [split; assumption|].
  destruct (validateApiKey_checks_what_applyEdit_uses _ _ _ _ _ _ _ H1 H2)
    as [_ [_ H]].
  exact H.
Defined.

(** A timeout of zero is kept; a negative one makes the strict client
    constructor, and with it the constructor of the service, throw. *)
Lemma constructor_invariants_witness :
  construct strictNewOpenAI zeroTimeoutConfig = Normal (constructor zeroTimeoutConfig)
  ∧ opt_timeout (client (constructor zeroTimeoutConfig)) = Some 0%Z
  ∧ construct strictNewOpenAI (config (constructor zeroTimeoutConfig))
    = Normal (constructor zeroTimeoutConfig).
Proof.
  assert (construct strictNewOpenAI zeroTimeoutConfig
          = Normal (constructor zeroTimeoutConfig)) as H by reflexivity.
  split; [exact H|].
  destruct (constructor_invariants strictNewOpenAI zeroTimeoutConfig _ H)
    as [_ [_ [_ [Ht [_ Hc]]]]].
  split; [exact (Ht 0%Z eq_refl) | exact Hc].
Defined.

Example construct_negative_timeout_throws :
  construct strictNewOpenAI
    {| apiKey := VString (lit "sk-test");
       baseUrl := VString (lit "https://api.morphllm.com/v1");
       timeout := Some (-1)%Z |}
  = Abrupt (ThrowError
      (OtherError (lit "Error") (lit "timeout must be a positive integer"))).
Proof. by apply construct_throws. Qed.
